(** * read_function.py: the read endpoint of the cross-region DR project

    A shallow embedding of [src/read_function.py] and of the two library
    calls it makes ([table.scan()] of boto3 and [json.dumps] of the Python
    standard library), followed by the properties of [lambda_handler].

    Conventions.
    - A Python [str] is a list of Unicode code points ([pystr]).
    - Python values are the inductive [pyval]; a [dict] is an association
      list in insertion order (the order [json.dumps] walks it in).
    - The handler runs in a state-and-exception monad: the state is the
      backing table together with the log of the Scan requests sent to it,
      and a computation either returns a value or raises a Python
      exception.  The exceptions of the model are instances of
      [Exception] (botocore's ClientError and BotoCoreError, KeyError,
      TypeError, ...), the class the handler's [except] clause names. *)

From Stdlib Require Import List String Ascii Bool ZArith NArith Lia.
From Stdlib Require Import Decimal DecimalZ DecimalFacts.
Import ListNotations.


(* ================================================================= *)
(** ** Python strings *)

Definition pystr := list N.

(** An ASCII literal of the source as a Python string. *)
Fixpoint lit (s : string) : pystr :=
  match s with
  | EmptyString => []
  | String a r => N_of_ascii a :: lit r
  end.

Definition pystr_eqb (a b : pystr) : bool :=
  if list_eq_dec N.eq_dec a b then true else false.

(** Code points the encoder and the parser name. *)
Definition ch_quote     : N := 34.   (* the double quote *)
Definition ch_backslash : N := 92.
Definition ch_slash     : N := 47.
Definition ch_space     : N := 32.
Definition ch_comma     : N := 44.
Definition ch_colon     : N := 58.
Definition ch_minus     : N := 45.
Definition ch_lbracket  : N := 91.
Definition ch_rbracket  : N := 93.
Definition ch_lbrace    : N := 123.
Definition ch_rbrace    : N := 125.

(* ================================================================= *)
(** ** Python values and exceptions *)

(** The values the handler can meet: what boto3's resource layer
    deserialises a DynamoDB attribute to ([None], [bool], [Decimal],
    [str], [Binary], [set], [list], [dict]) and the [int]s of a Scan
    response ([Count], [ScannedCount]).  Dictionaries have [str] keys, as
    DynamoDB maps and boto3 responses do. *)
Unset Elimination Schemes.
Inductive pyval : Type :=
| PNone
| PBool (b : bool)
| PInt (z : Z)
| PStr (s : pystr)
| PList (l : list pyval)
| PDict (d : list (pystr * pyval))
| PDecimal (digits : pystr)        (* decimal.Decimal, a DynamoDB number *)
| PBinary (bytes : list N)         (* boto3.dynamodb.types.Binary *)
| PSet (elems : list pyval).       (* a DynamoDB string/number/binary set *)
Set Elimination Schemes.

Definition pydict := list (pystr * pyval).

(** An instance of (a subclass of) [Exception]: its class name and what
    [str(e)] returns. *)
Record exn : Type := mkExn { exc_class : string; exc_str : pystr }.

Inductive result (A : Type) : Type :=
| Return (a : A)
| Raise (e : exn).
Arguments Return {A} a.
Arguments Raise {A} e.

(** [d[k]] on a dict.  A missing key raises [KeyError(k)], whose [str] is
    [repr(k)]: the key between single quotes, for a key of plain letters
    such as the one the handler uses. *)
Fixpoint lookup (k : pystr) (d : pydict) : option pyval :=
  match d with
  | [] => None
  | (k', v) :: r => if pystr_eqb k k' then Some v else lookup k r
  end.

Definition KeyError (k : pystr) : exn :=
  mkExn "KeyError" (lit "'" ++ k ++ lit "'").

Definition getitem (d : pydict) (k : pystr) : result pyval :=
  match lookup k d with
  | Some v => Return v
  | None => Raise (KeyError k)
  end.

(* ================================================================= *)
(** ** json.dumps

    [json.dumps(obj)] with its default arguments: [ensure_ascii=True],
    separators [", "] and [": "], [skipkeys=False], no [default] hook. *)

Module Json.

(** [int.__repr__]: decimal digits, most significant first. *)
Fixpoint digits (u : Decimal.uint) : pystr :=
  match u with
  | Nil => []
  | D0 r => 48 :: digits r
  | D1 r => 49 :: digits r
  | D2 r => 50 :: digits r
  | D3 r => 51 :: digits r
  | D4 r => 52 :: digits r
  | D5 r => 53 :: digits r
  | D6 r => 54 :: digits r
  | D7 r => 55 :: digits r
  | D8 r => 56 :: digits r
  | D9 r => 57 :: digits r
  end%N.

Definition int_repr (z : Z) : pystr :=
  match Z.to_int z with
  | Pos u => digits u
  | Neg u => ch_minus :: digits u
  end.

(** One lower-case hexadecimal digit, and ['{0:04x}'.format(n)] for
    [n < 0x10000]. *)
Definition hex_digit (d : N) : N :=
  (if d <? 10 then 48 + d else 87 + d)%N.

Definition hex4 (n : N) : pystr :=
  [ hex_digit (N.shiftr n 12 mod 16); hex_digit (N.shiftr n 8 mod 16);
    hex_digit (N.shiftr n 4 mod 16);  hex_digit (n mod 16) ]%N.

Definition u_escape (n : N) : pystr :=
  ch_backslash :: 117%N :: hex4 n.

(** The replacement [py_encode_basestring_ascii] makes for one character
    matched by ESCAPE_ASCII (the backslash, the double quote and whatever
    lies outside the range from the space to the tilde); the characters
    of that range other than the quote and the backslash are kept. *)
Definition escape_char (c : N) : pystr :=
  (if c =? ch_backslash then [ch_backslash; ch_backslash]
   else if c =? ch_quote then [ch_backslash; ch_quote]
   else if c =? 8 then [ch_backslash; 98]      (* \b *)
   else if c =? 12 then [ch_backslash; 102]    (* \f *)
   else if c =? 10 then [ch_backslash; 110]    (* \n *)
   else if c =? 13 then [ch_backslash; 114]    (* \r *)
   else if c =? 9 then [ch_backslash; 116]     (* \t *)
   else if (32 <=? c) && (c <=? 126) then [c]
   else if c <? 65536 then u_escape c
   else
     let n := c - 65536 in
     let s1 := N.lor 55296 (N.land (N.shiftr n 10) 1023) in
     let s2 := N.lor 56320 (N.land n 1023) in
     u_escape s1 ++ u_escape s2)%N.

Definition encode_basestring_ascii (s : pystr) : pystr :=
  ch_quote :: flat_map escape_char s ++ [ch_quote].

(** [', '.join]-style assembly of the chunks of a container. *)
Fixpoint join (sep : pystr) (chunks : list pystr) : pystr :=
  match chunks with
  | [] => []
  | [c] => c
  | c :: r => c ++ sep ++ join sep r
  end.

Definition not_serializable (cls : string) : exn :=
  mkExn "TypeError"
        (lit "Object of type " ++ lit cls ++ lit " is not JSON serializable").

(** The encoder.  The first value it cannot encode, in traversal order,
    aborts the whole call with a [TypeError]. *)
Fixpoint encode (v : pyval) : result pystr :=
  match v with
  | PNone => Return (lit "null")
  | PBool true => Return (lit "true")
  | PBool false => Return (lit "false")
  | PInt z => Return (int_repr z)
  | PStr s => Return (encode_basestring_ascii s)
  | PList l =>
      let fix chunks (l : list pyval) : result (list pystr) :=
        match l with
        | [] => Return []
        | x :: r =>
            match encode x with
            | Raise e => Raise e
            | Return c =>
                match chunks r with
                | Raise e => Raise e
                | Return cs => Return (c :: cs)
                end
            end
        end in
      match chunks l with
      | Raise e => Raise e
      | Return cs => Return (ch_lbracket :: join (lit ", ") cs ++ [ch_rbracket])
      end
  | PDict d =>
      let fix chunks (d : list (pystr * pyval)) : result (list pystr) :=
        match d with
        | [] => Return []
        | (k, x) :: r =>
            match encode x with
            | Raise e => Raise e
            | Return c =>
                match chunks r with
                | Raise e => Raise e
                | Return cs =>
                    Return ((encode_basestring_ascii k ++ lit ": " ++ c) :: cs)
                end
            end
        end in
      match chunks d with
      | Raise e => Raise e
      | Return cs => Return (ch_lbrace :: join (lit ", ") cs ++ [ch_rbrace])
      end
  | PDecimal _ => Raise (not_serializable "Decimal")
  | PBinary _ => Raise (not_serializable "Binary")
  | PSet _ => Raise (not_serializable "set")
  end.

Definition dumps (obj : pyval) : result pystr := encode obj.

End Json.

(* ================================================================= *)
(** ** The backing table and the handler's monad *)

(** What one Scan request comes back with: the response dict, or an
    exception (connectivity, permission, throttling, ...). *)
Inductive scan_result : Type :=
| ScanOk (response : pydict)
| ScanFail (e : exn).

(** The state of the backing table as the handler can observe it: the
    answer to a Scan with each possible [ExclusiveStartKey] ([None] when
    the argument is left out, as for the first page). *)
Definition Table := option pyval -> scan_result.

Record World : Type := mkWorld {
  table : Table;                        (* dynamodb.Table('HighAvailabilityTable') *)
  requests : list (option pyval)        (* Scan requests sent so far, oldest first *)
}.

Definition M (A : Type) : Type := World -> result A * World.

Definition ret {A} (a : A) : M A := fun w => (Return a, w).

Definition bind {A B} (m : M A) (k : A -> M B) : M B :=
  fun w =>
    match m w with
    | (Return a, w') => k a w'
    | (Raise e, w') => (Raise e, w')
    end.

Definition lift {A} (r : result A) : M A := fun w => (r, w).

(** [try: body  except Exception as e: handler e].  Every [exn] is an
    instance of [Exception], so the clause catches whatever [body]
    raises; the handler runs in the world [body] left. *)
Definition try_except {A} (body : M A) (handler : exn -> M A) : M A :=
  fun w =>
    match body w with
    | (Return a, w') => (Return a, w')
    | (Raise e, w') => handler e w'
    end.

Notation "x <- m ;; k" := (bind m (fun x => k))
  (at level 61, m at next level, right associativity).

(** [table.scan(ExclusiveStartKey=start)]; [table.scan()] is
    [table_scan None].  A Scan reads: the table is left as it is, and the
    request is logged. *)
Definition table_scan (start : option pyval) : M pydict :=
  fun w =>
    let w' := mkWorld (table w) (requests w ++ [start]) in
    match table w start with
    | ScanOk response => (Return response, w')
    | ScanFail e => (Raise e, w')
    end.

(* ================================================================= *)
(** ** lambda_handler *)

(** The dict the handler returns, by its three keys. *)
Record Envelope : Type := mkEnvelope {
  statusCode : Z;
  headers : list (pystr * pystr);
  body : pystr
}.

Definition cors_headers : list (pystr * pystr) :=
  [ (lit "Content-Type", lit "application/json");
    (lit "Access-Control-Allow-Origin", lit "*") ].

Definition lambda_handler (event context : pyval) : M Envelope :=
  try_except
    (response <- table_scan None ;;
     items <- lift (getitem response (lit "Items")) ;;
     body <- lift (Json.dumps items) ;;
     ret (mkEnvelope 200 cors_headers body))
    (fun e =>
     body <- lift (Json.dumps (PDict [(lit "error", PStr (exc_str e))])) ;;
     ret (mkEnvelope 500 cors_headers body)).

(* ================================================================= *)
(** ** The complete, paginated read of the specification

    The specification's read-all operation, for comparison with what the
    handler does: request a page, and as long as the page carries a
    continuation token ([LastEvaluatedKey]) request the next one with it,
    accumulating the records in order.  [fuel] bounds the number of pages;
    [None] means it was exhausted. *)

Fixpoint spec_read_all (fuel : nat) (t : Table) (start : option pyval)
  : option (result (list pyval)) :=
  match fuel with
  | O => None
  | S fuel' =>
      match t start with
      | ScanFail e => Some (Raise e)
      | ScanOk response =>
          match lookup (lit "Items") response with
          | Some (PList page) =>
              match lookup (lit "LastEvaluatedKey") response with
              | None => Some (Return page)
              | Some token =>
                  match spec_read_all fuel' t (Some token) with
                  | Some (Return more) => Some (Return (page ++ more))
                  | other => other
                  end
              end
          | Some _ => Some (Raise (mkExn "TypeError" (lit "Items is not a list")))
          | None => Some (Raise (KeyError (lit "Items")))
          end
      end
  end.

(** A table that stores [rows] and serves them [per_page] at a time.  The
    continuation token is opaque to the client; here it is the position
    of the next row.  Any other start key is rejected, as DynamoDB rejects
    a malformed [ExclusiveStartKey]. *)
Definition scan_response (rows : list pyval) (per_page from : nat) : pydict :=
  let page := firstn per_page (skipn from rows) in
  (lit "Items", PList page)
    :: (lit "Count", PInt (Z.of_nat (List.length page)))
    :: (if Nat.ltb (from + per_page) (List.length rows)
        then [(lit "LastEvaluatedKey", PInt (Z.of_nat (from + per_page)))]
        else []).

Definition paged_table (rows : list pyval) (per_page : nat) : Table :=
  fun start =>
    match start with
    | None => ScanOk (scan_response rows per_page 0)
    | Some (PInt z) => ScanOk (scan_response rows per_page (Z.to_nat z))
    | Some _ =>
        ScanFail (mkExn "ClientError" (lit "The provided starting key is invalid"))
    end.

(** A table whose first page is served, with a continuation token, and
    whose every later page request fails with [e]. *)
Definition second_page_fails (page1 : list pyval) (token : pyval) (e : exn)
  : Table :=
  fun start =>
    match start with
    | None =>
        ScanOk [(lit "Items", PList page1); (lit "LastEvaluatedKey", token)]
    | Some _ => ScanFail e
    end.

(** The shape of the records of a Scan response: a list of attribute
    maps. *)
Definition is_record (v : pyval) : bool :=
  match v with PDict _ => true | _ => false end.

Definition is_record_list (v : pyval) : bool :=
  match v with PList l => forallb is_record l | _ => false end.

(* ================================================================= *)
(** ** JSON text: values and a parser

    The reading side of the body: the JSON grammar of RFC 8259 restricted
    to integer numbers (the encoder above emits no other).  A string is
    decoded to the sequence of characters and [\uXXXX] code units it
    denotes. *)

Module JsonText.

Unset Elimination Schemes.
Inductive json : Type :=
| JNull
| JBool (b : bool)
| JNum (z : Z)
| JStr (s : pystr)
| JArr (l : list json)
| JObj (members : list (pystr * json)).
Set Elimination Schemes.

Definition is_ws (c : N) : bool :=
  ((c =? 32) || (c =? 9) || (c =? 10) || (c =? 13))%N.

Fixpoint skip_ws (s : pystr) : pystr :=
  match s with
  | [] => []
  | c :: r => if is_ws c then skip_ws r else s
  end.

Definition unhex (c : N) : option N :=
  (if (48 <=? c) && (c <=? 57) then Some (c - 48)
   else if (97 <=? c) && (c <=? 102) then Some (c - 87)
   else if (65 <=? c) && (c <=? 70) then Some (c - 55)
   else None)%N.

(** The character a two-character escape stands for. *)
Definition unescape (e : N) : option N :=
  (if e =? ch_quote then Some ch_quote
   else if e =? ch_backslash then Some ch_backslash
   else if e =? ch_slash then Some ch_slash
   else if e =? 98 then Some 8
   else if e =? 102 then Some 12
   else if e =? 110 then Some 10
   else if e =? 114 then Some 13
   else if e =? 116 then Some 9
   else None)%N.

(** The characters of a string after its opening quote, up to and
    including the closing quote.  Control characters must be escaped. *)
Fixpoint parse_chars (s : pystr) : option (pystr * pystr) :=
  match s with
  | [] => None
  | c :: r =>
      if (c =? ch_quote)%N then Some ([], r)
      else if (c =? ch_backslash)%N then
        match r with
        | [] => None
        | e :: r1 =>
            if (e =? 117)%N then
              match r1 with
              | h3 :: h2 :: h1 :: h0 :: r2 =>
                  match unhex h3, unhex h2, unhex h1, unhex h0 with
                  | Some x3, Some x2, Some x1, Some x0 =>
                      match parse_chars r2 with
                      | Some (cs, rest) =>
                          Some ((x3 * 4096 + x2 * 256 + x1 * 16 + x0)%N :: cs, rest)
                      | None => None
                      end
                  | _, _, _, _ => None
                  end
              | _ => None
              end
            else
              match unescape e with
              | Some x =>
                  match parse_chars r1 with
                  | Some (cs, rest) => Some (x :: cs, rest)
                  | None => None
                  end
              | None => None
              end
        end
      else if (c <? 32)%N then None
      else
        match parse_chars r with
        | Some (cs, rest) => Some (c :: cs, rest)
        | None => None
        end
  end.

Definition digit_of (c : N) : option (Decimal.uint -> Decimal.uint) :=
  (if c =? 48 then Some D0 else if c =? 49 then Some D1
   else if c =? 50 then Some D2 else if c =? 51 then Some D3
   else if c =? 52 then Some D4 else if c =? 53 then Some D5
   else if c =? 54 then Some D6 else if c =? 55 then Some D7
   else if c =? 56 then Some D8 else if c =? 57 then Some D9
   else None)%N.

(** The longest prefix of digits. *)
Fixpoint parse_digits (s : pystr) : Decimal.uint * pystr :=
  match s with
  | [] => (Nil, [])
  | c :: r =>
      match digit_of c with
      | Some d => let (u, rest) := parse_digits r in (d u, rest)
      | None => (Nil, s)
      end
  end.

(** An optional minus sign, then a single zero or a digit string that
    does not start with zero. *)
Definition parse_int (s : pystr) : option (Z * pystr) :=
  match s with
  | [] => None
  | c :: r =>
      if (c =? ch_minus)%N then
        let (u, rest) := parse_digits r in
        if Decimal.uint_beq (unorm u) u then Some (Z.of_int (Neg u), rest)
        else None
      else
        let (u, rest) := parse_digits s in
        if Decimal.uint_beq (unorm u) u then Some (Z.of_int (Pos u), rest)
        else None
  end.

Definition is_number_start (c : N) : bool :=
  (c =? ch_minus)%N || match digit_of c with Some _ => true | None => false end.

Definition expect (word : pystr) (s : pystr) : option pystr :=
  if pystr_eqb (firstn (List.length word) s) word
  then Some (skipn (List.length word) s) else None.

Fixpoint parse_value (fuel : nat) (s : pystr) : option (json * pystr) :=
  match fuel with
  | O => None
  | S fuel' =>
      match skip_ws s with
      | [] => None
      | c :: r =>
          if is_number_start c then
            match parse_int (c :: r) with
            | Some (z, rest) => Some (JNum z, rest)
            | None => None
            end
          else if (c =? ch_quote)%N then
            match parse_chars r with
            | Some (cs, rest) => Some (JStr cs, rest)
            | None => None
            end
          else if (c =? ch_lbracket)%N then
            match skip_ws r with
            | [] => None
            | c' :: r' =>
                if (c' =? ch_rbracket)%N then Some (JArr [], r')
                else
                  match parse_elements fuel' r with
                  | Some (vs, rest) => Some (JArr vs, rest)
                  | None => None
                  end
            end
          else if (c =? ch_lbrace)%N then
            match skip_ws r with
            | [] => None
            | c' :: r' =>
                if (c' =? ch_rbrace)%N then Some (JObj [], r')
                else
                  match parse_members fuel' r with
                  | Some (ms, rest) => Some (JObj ms, rest)
                  | None => None
                  end
            end
          else
            match expect (lit "null") (c :: r) with
            | Some rest => Some (JNull, rest)
            | None =>
                match expect (lit "true") (c :: r) with
                | Some rest => Some (JBool true, rest)
                | None =>
                    match expect (lit "false") (c :: r) with
                    | Some rest => Some (JBool false, rest)
                    | None => None
                    end
                end
            end
      end
  end

with parse_elements (fuel : nat) (s : pystr) : option (list json * pystr) :=
  match fuel with
  | O => None
  | S fuel' =>
      match parse_value fuel' s with
      | None => None
      | Some (v, r) =>
          match skip_ws r with
          | [] => None
          | c :: r' =>
              if (c =? ch_rbracket)%N then Some ([v], r')
              else if (c =? ch_comma)%N then
                match parse_elements fuel' r' with
                | Some (vs, rest) => Some (v :: vs, rest)
                | None => None
                end
              else None
          end
      end
  end

with parse_members (fuel : nat) (s : pystr)
  : option (list (pystr * json) * pystr) :=
  match fuel with
  | O => None
  | S fuel' =>
      match skip_ws s with
      | [] => None
      | q :: r0 =>
          if negb (q =? ch_quote)%N then None
          else
            match parse_chars r0 with
            | None => None
            | Some (k, r1) =>
                match skip_ws r1 with
                | [] => None
                | c1 :: r2 =>
                    if negb (c1 =? ch_colon)%N then None
                    else
                      match parse_value fuel' r2 with
                      | None => None
                      | Some (v, r3) =>
                          match skip_ws r3 with
                          | [] => None
                          | c :: r' =>
                              if (c =? ch_rbrace)%N then Some ([(k, v)], r')
                              else if (c =? ch_comma)%N then
                                match parse_members fuel' r' with
                                | Some (ms, rest) => Some ((k, v) :: ms, rest)
                                | None => None
                                end
                              else None
                          end
                      end
                end
            end
      end
  end.

(** A whole text: one value, then nothing but white space. *)
Definition loads (s : pystr) : option json :=
  match parse_value (S (List.length s)) s with
  | Some (v, rest) =>
      match skip_ws rest with
      | [] => Some v
      | _ :: _ => None
      end
  | None => None
  end.

(** The documented shapes of the body. *)
Definition is_object (j : json) : bool :=
  match j with JObj _ => true | _ => false end.

Definition is_record_array (j : json) : bool :=
  match j with JArr l => forallb is_object l | _ => false end.

Definition is_error_object (j : json) : bool :=
  match j with
  | JObj [(k, JStr _)] => pystr_eqb k (lit "error")
  | _ => false
  end.

(** The code units a character is written as: itself in the basic plane,
    a surrogate pair above it. *)
Definition utf16 (c : N) : pystr :=
  (if c <? 65536 then [c]
   else
     let n := c - 65536 in
     [ N.lor 55296 (N.land (N.shiftr n 10) 1023); N.lor 56320 (N.land n 1023) ])%N.

Definition units (s : pystr) : pystr := flat_map utf16 s.

(** The JSON value an encodable Python value is written as. *)
Fixpoint to_json (v : pyval) : json :=
  match v with
  | PNone => JNull
  | PBool b => JBool b
  | PInt z => JNum z
  | PStr s => JStr (units s)
  | PList l => JArr (map to_json l)
  | PDict d => JObj (map (fun kv => (units (fst kv), to_json (snd kv))) d)
  | PDecimal _ | PBinary _ | PSet _ => JNull
  end.

End JsonText.

(** The text of [json.dumps({'error': msg})]: an object with the one
    member [error]. *)
Definition error_body (msg : pystr) : pystr :=
  ch_lbrace
    :: (Json.encode_basestring_ascii (lit "error") ++ lit ": "
        ++ Json.encode_basestring_ascii msg)
    ++ [ch_rbrace].

(** The world after the one Scan request of the handler. *)
Definition after_scan (w : World) : World :=
  mkWorld (table w) (requests w ++ [None]).

(* ================================================================= *)
(** ** Sample tables

    Concrete states of the backing table, used to evaluate the handler. *)

Definition row_a : pyval :=
  PDict [(lit "id", PStr (lit "a")); (lit "region", PStr (lit "us-east-1"))].

Definition row_b : pyval :=
  PDict [(lit "id", PStr (lit "b")); (lit "region", PStr (lit "us-west-2"))].

Definition throttled : exn :=
  mkExn "ClientError" (lit "ProvisionedThroughputExceededException").

(** Two rows served one per page, two rows in one page, no row at all. *)
Definition two_page_world : World := mkWorld (paged_table [row_a; row_b] 1) [].
Definition one_page_world : World := mkWorld (paged_table [row_a; row_b] 25) [].
Definition empty_world : World := mkWorld (paged_table [] 25) [].

(** A row with a number attribute (boto3 hands numbers over as
    [Decimal]), and a response that carries a count but no [Items]. *)
Definition decimal_world : World :=
  mkWorld (paged_table [PDict [(lit "id", PStr (lit "c"));
                               (lit "hits", PDecimal (lit "42"))]] 25) [].
Definition count_only_world : World :=
  mkWorld (fun _ => ScanOk [(lit "Count", PInt 2)]) [].

(** Every request fails; the first page is served and the second fails. *)
Definition failing_world : World := mkWorld (fun _ => ScanFail throttled) [].
Definition half_failing_world : World :=
  mkWorld (second_page_fails [row_a] (PInt 1) throttled) [].

(* ================================================================= *)
(** ** Auxiliary notions of the round-trip proof *)

Module JsonAux.
Import JsonText.

(** The two inner loops of [Json.encode], by name. *)
Definition encode_items (l : list pyval) : result (list pystr) :=
  (fix chunks (l : list pyval) : result (list pystr) :=
     match l with
     | [] => Return []
     | x :: r =>
         match Json.encode x with
         | Raise e => Raise e
         | Return c =>
             match chunks r with
             | Raise e => Raise e
             | Return cs => Return (c :: cs)
             end
         end
     end) l.

Definition encode_members (d : list (pystr * pyval)) : result (list pystr) :=
  (fix chunks (d : list (pystr * pyval)) : result (list pystr) :=
     match d with
     | [] => Return []
     | (k, x) :: r =>
         match Json.encode x with
         | Raise e => Raise e
         | Return c =>
             match chunks r with
             | Raise e => Raise e
             | Return cs =>
                 Return ((Json.encode_basestring_ascii k ++ lit ": " ++ c) :: cs)
             end
         end
     end) d.

(** Fuel that suffices to parse the text of a value. *)
Fixpoint size (v : pyval) : nat :=
  match v with
  | PList l => S (list_sum (map (fun x => S (size x)) l))
  | PDict d => S (list_sum (map (fun kv => S (size (snd kv))) d))
  | _ => 1
  end.

(** What may follow a number: the end of the text or a character that is
    not a digit. *)
Definition no_digit_ahead (rest : pystr) : Prop :=
  match rest with
  | [] => True
  | c :: _ => digit_of c = None
  end.

(** The first character of an encoded value: it is not white space and
    closes no container. *)
Definition starts_value (out : pystr) : Prop :=
  exists h t, out = h :: t /\ is_ws h = false
              /\ (h =? ch_rbracket)%N = false /\ (h =? ch_rbrace)%N = false.

(** The text of [v], followed by anything that does not extend a number,
    parses back to [to_json v] and leaves what followed. *)
Definition roundtrips (v : pyval) : Prop :=
  forall out, Json.encode v = Return out ->
  forall fuel rest, size v <= fuel -> no_digit_ahead rest ->
  parse_value fuel (out ++ rest) = Some (to_json v, rest).

(** The text of [v] is long enough to pay for its own parsing. *)
Definition fits (v : pyval) : Prop :=
  forall out, Json.encode v = Return out -> size v <= S (List.length out).

End JsonAux.

(* ================================================================= *)
(** ** What [json.dumps] refuses, and what it writes with *)

(** The class of the first object that [json.dumps] cannot encode, in the
    order the encoder walks [v]: list elements left to right, dictionary
    values in insertion order, containers before what follows them.
    [None] when there is no such object. *)
Fixpoint first_unserializable (v : pyval) : option string :=
  match v with
  | PNone | PBool _ | PInt _ | PStr _ => None
  | PList l =>
      (fix scan (l : list pyval) : option string :=
         match l with
         | [] => None
         | x :: r =>
             match first_unserializable x with
             | Some cls => Some cls
             | None => scan r
             end
         end) l
  | PDict d =>
      (fix scan (d : list (pystr * pyval)) : option string :=
         match d with
         | [] => None
         | (_, x) :: r =>
             match first_unserializable x with
             | Some cls => Some cls
             | None => scan r
             end
         end) d
  | PDecimal _ => Some "Decimal"%string
  | PBinary _ => Some "Binary"%string
  | PSet _ => Some "set"%string
  end.

(** The printable ASCII characters, from the space to the tilde. *)
Definition printable (c : N) : Prop := (32 <= c <= 126)%N.

(** The printable characters [json.dumps] leaves alone: neither the
    double quote nor the backslash. *)
Definition plain (c : N) : Prop :=
  (32 <= c /\ c <= 126 /\ c <> ch_quote /\ c <> ch_backslash)%N.

(** A character of the basic multilingual plane: a code point below
    U+10000 that is not a surrogate half (U+D800 to U+DFFF).  It is
    written as one code unit, which no reader of the text can take for
    half of a pair. *)
Definition bmp (c : N) : Prop :=
  (c < 55296 \/ (57344 <= c /\ c < 65536))%N.

(** A first page like that of [two_page_world], stripped of everything
    but its [Items]. *)
Definition items_only_world : World :=
  mkWorld (fun _ => ScanOk [(lit "Items", PList [row_a])]) [].

(* ================================================================= *)
(** * Properties *)

(** ** Strings and dictionaries *)

Lemma pystr_eqb_eq a b : pystr_eqb a b = true <-> a = b.
Proof.
  unfold pystr_eqb. destruct (list_eq_dec N.eq_dec a b); split; congruence.
Qed.

Lemma pystr_eqb_refl a : pystr_eqb a a = true.
Proof. now apply pystr_eqb_eq. Qed.

Lemma dumps_error msg :
  Json.dumps (PDict [(lit "error", PStr msg)]) = Return (error_body msg).
Proof. reflexivity. Qed.

(** ** Reading back what [json.dumps] writes *)

Module JsonFacts.
Import JsonText JsonAux.

(** *** Strings *)

Section Strings.
Open Scope N_scope.

Lemma unhex_hex_digit d : d < 16 -> unhex (Json.hex_digit d) = Some d.
Proof.
  intros H.
  assert (E : d = 0 \/ d = 1 \/ d = 2 \/ d = 3 \/ d = 4 \/ d = 5 \/ d = 6 \/ d = 7
              \/ d = 8 \/ d = 9 \/ d = 10 \/ d = 11 \/ d = 12 \/ d = 13 \/ d = 14
              \/ d = 15) by lia.
  repeat (destruct E as [->|E]; [reflexivity|]). now subst.
Qed.

Lemma nibbles_value n :
  n < 65536 ->
  (N.shiftr n 12 mod 16) * 4096 + (N.shiftr n 8 mod 16) * 256
    + (N.shiftr n 4 mod 16) * 16 + n mod 16 = n.
Proof.
  intros H. rewrite !N.shiftr_div_pow2.
  change (2 ^ 12) with 4096. change (2 ^ 8) with 256. change (2 ^ 4) with 16.
  pose proof (N.div_mod' n 4096). pose proof (N.mod_lt n 4096).
  pose proof (N.div_mod' (n / 4096) 16). pose proof (N.mod_lt (n / 4096) 16).
  pose proof (N.div_mod' n 256). pose proof (N.mod_lt n 256).
  pose proof (N.div_mod' (n / 256) 16). pose proof (N.mod_lt (n / 256) 16).
  pose proof (N.div_mod' n 16) as D16. pose proof (N.mod_lt n 16).
  pose proof (N.div_mod' (n / 16) 16). pose proof (N.mod_lt (n / 16) 16).
  assert (n / 4096 < 16) by (apply N.Div0.div_lt_upper_bound; lia).
  rewrite (N.mod_small (n / 4096) 16) by assumption.
  assert (n / 256 = 16 * (n / 4096) + (n / 256) mod 16).
  { replace (n / 4096) with (n / 256 / 16) by (rewrite N.Div0.div_div; reflexivity).
    apply N.div_mod'. }
  assert (n / 16 = 16 * (n / 256) + (n / 16) mod 16).
  { replace (n / 256) with (n / 16 / 16) by (rewrite N.Div0.div_div; reflexivity).
    apply N.div_mod'. }
  lia.
Qed.

Lemma parse_chars_u h3 h2 h1 h0 r2 :
  parse_chars (ch_backslash :: 117 :: h3 :: h2 :: h1 :: h0 :: r2) =
    match unhex h3, unhex h2, unhex h1, unhex h0 with
    | Some x3, Some x2, Some x1, Some x0 =>
        match parse_chars r2 with
        | Some (cs, rest) => Some ((x3 * 4096 + x2 * 256 + x1 * 16 + x0) :: cs, rest)
        | None => None
        end
    | _, _, _, _ => None
    end.
Proof. reflexivity. Qed.

Lemma parse_chars_u_escape n tail cs rest :
  n < 65536 ->
  parse_chars tail = Some (cs, rest) ->
  parse_chars (Json.u_escape n ++ tail) = Some (n :: cs, rest).
Proof.
  intros Hn Ht. unfold Json.u_escape, Json.hex4.
  cbn [List.app]. rewrite parse_chars_u.
  rewrite !unhex_hex_digit by (apply N.mod_lt; discriminate).
  rewrite Ht. cbv beta iota. rewrite nibbles_value by assumption. reflexivity.
Qed.

Lemma parse_chars_plain c tail cs rest :
  32 <= c -> c <> ch_quote -> c <> ch_backslash ->
  parse_chars tail = Some (cs, rest) ->
  parse_chars (c :: tail) = Some (c :: cs, rest).
Proof.
  intros H1 H2 H3 Ht. cbn [parse_chars].
  apply N.eqb_neq in H2, H3. rewrite H2, H3.
  destruct (N.ltb_spec c 32); [lia|]. now rewrite Ht.
Qed.

Lemma surrogate_lt hi x : hi = 55296 \/ hi = 56320 -> N.lor hi (N.land x 1023) < 65536.
Proof.
  intros Hhi.
  change 1023 with (N.ones 10). rewrite N.land_ones.
  assert (Hx : x mod 2 ^ 10 < 1024) by (apply N.mod_lt; discriminate).
  set (y := x mod 2 ^ 10) in *. clearbody y.
  apply N.log2_lt_pow2 with (b := 16).
  - destruct Hhi; subst hi; destruct y; simpl; lia.
  - rewrite N.log2_lor.
    assert (N.log2 y < 16).
    { destruct (N.eq_dec y 0) as [->|]; [simpl; lia|].
      apply N.log2_lt_pow2; [lia|]. change (2 ^ 16) with 65536. lia. }
    destruct Hhi; subst hi; simpl N.log2 at 1; lia.
Qed.

Lemma parse_chars_escape c tail cs rest :
  parse_chars tail = Some (cs, rest) ->
  parse_chars (Json.escape_char c ++ tail) = Some (utf16 c ++ cs, rest).
Proof.
  intros Ht. unfold Json.escape_char, utf16.
  destruct (N.eqb_spec c ch_backslash) as [->|Hb].
  { simpl. now rewrite Ht. }
  destruct (N.eqb_spec c ch_quote) as [->|Hq].
  { simpl. now rewrite Ht. }
  destruct (N.eqb_spec c 8) as [->|H8]; [simpl; now rewrite Ht|].
  destruct (N.eqb_spec c 12) as [->|H12]; [simpl; now rewrite Ht|].
  destruct (N.eqb_spec c 10) as [->|H10]; [simpl; now rewrite Ht|].
  destruct (N.eqb_spec c 13) as [->|H13]; [simpl; now rewrite Ht|].
  destruct (N.eqb_spec c 9) as [->|H9]; [simpl; now rewrite Ht|].
  destruct (N.leb_spec 32 c) as [Hlo|Hlo]; simpl andb.
  - destruct (N.leb_spec c 126) as [Hhi|Hhi].
    + destruct (N.ltb_spec c 65536); [|lia].
      cbn [List.app]. now apply parse_chars_plain.
    + destruct (N.ltb_spec c 65536) as [Hc|Hc].
      * cbn [List.app]. now apply parse_chars_u_escape.
      * cbv zeta. rewrite <- app_assoc. cbn [List.app].
        apply parse_chars_u_escape; [apply surrogate_lt; auto|].
        apply parse_chars_u_escape; [apply surrogate_lt; auto|]. exact Ht.
  - destruct (N.ltb_spec c 65536) as [Hc|Hc]; [|lia].
    cbn [List.app]. now apply parse_chars_u_escape.
Qed.

Lemma parse_chars_string s rest :
  parse_chars (flat_map Json.escape_char s ++ ch_quote :: rest)
  = Some (units s, rest).
Proof.
  induction s as [|c s IH]; [reflexivity|].
  simpl flat_map. rewrite <- app_assoc. unfold units. simpl flat_map.
  now apply parse_chars_escape.
Qed.
End Strings.

(** *** Integers *)

Lemma parse_digits_digits u rest :
  no_digit_ahead rest ->
  parse_digits (Json.digits u ++ rest) = (u, rest).
Proof.
  intros Hrest. induction u; cbn [Json.digits List.app parse_digits];
    try (cbn [digit_of N.eqb Pos.eqb]; rewrite IHu; reflexivity).
  destruct rest as [|c r]; [reflexivity|].
  cbn [parse_digits]. simpl in Hrest. now rewrite Hrest.
Qed.

Lemma uint_beq_refl u : Decimal.uint_beq u u = true.
Proof. induction u; simpl; auto. Qed.

Lemma to_int_norm z : norm (Z.to_int z) = Z.to_int z.
Proof. rewrite <- (DecimalZ.to_of (Z.to_int z)), DecimalZ.of_to. reflexivity. Qed.

Lemma to_int_unorm z :
  match Z.to_int z with Pos u | Neg u => unorm u = u end.
Proof.
  pose proof (to_int_norm z) as H.
  destruct (Z.to_int z) as [u|u]; simpl in H.
  - congruence.
  - unfold unorm. destruct (nzhead u) eqn:E; congruence.
Qed.

Lemma digits_head u :
  unorm u = u ->
  exists c r, Json.digits u = c :: r /\ is_number_start c = true /\ is_ws c = false.
Proof.
  intros H. destruct u; [discriminate H| ..]; simpl; eauto 10.
Qed.

Lemma int_repr_head z :
  exists c r,
    Json.int_repr z = c :: r /\ is_number_start c = true /\ is_ws c = false.
Proof.
  unfold Json.int_repr. pose proof (to_int_unorm z) as H.
  destruct (Z.to_int z) as [u|u].
  - now apply digits_head.
  - exists ch_minus, (Json.digits u). auto.
Qed.

Lemma parse_int_repr z rest :
  no_digit_ahead rest ->
  parse_int (Json.int_repr z ++ rest) = Some (z, rest).
Proof.
  intros Hrest. unfold Json.int_repr.
  pose proof (to_int_unorm z) as Hn. pose proof (DecimalZ.of_to z) as Hz.
  destruct (Z.to_int z) as [u|u].
  - destruct (digits_head _ Hn) as (c & r & E & Hs & _).
    assert (Hc : (c =? ch_minus)%N = false).
    { destruct u; try discriminate Hn; simpl in E; injection E as <- _;
        reflexivity. }
    pose proof (parse_digits_digits u rest Hrest) as P.
    rewrite E in *. cbn [List.app] in *. unfold parse_int. rewrite Hc, P.
    rewrite Hn, uint_beq_refl, Hz. reflexivity.
  - cbn [List.app]. unfold parse_int.
    change (ch_minus =? ch_minus)%N with true. cbv iota.
    rewrite parse_digits_digits by assumption.
    rewrite Hn, uint_beq_refl, Hz. reflexivity.
Qed.

(** *** Containers *)

Lemma encode_list_eq l :
  Json.encode (PList l) =
    match encode_items l with
    | Raise e => Raise e
    | Return cs => Return (ch_lbracket :: Json.join (lit ", ") cs ++ [ch_rbracket])
    end.
Proof. reflexivity. Qed.

Lemma encode_dict_eq d :
  Json.encode (PDict d) =
    match encode_members d with
    | Raise e => Raise e
    | Return cs => Return (ch_lbrace :: Json.join (lit ", ") cs ++ [ch_rbrace])
    end.
Proof. reflexivity. Qed.

Lemma encode_items_cons x r :
  encode_items (x :: r) =
    match Json.encode x with
    | Raise e => Raise e
    | Return c =>
        match encode_items r with
        | Raise e => Raise e
        | Return cs => Return (c :: cs)
        end
    end.
Proof. reflexivity. Qed.

Lemma encode_members_cons k x r :
  encode_members ((k, x) :: r) =
    match Json.encode x with
    | Raise e => Raise e
    | Return c =>
        match encode_members r with
        | Raise e => Raise e
        | Return cs =>
            Return ((Json.encode_basestring_ascii k ++ lit ": " ++ c) :: cs)
        end
    end.
Proof. reflexivity. Qed.

Lemma pyval_induction (P : pyval -> Prop) :
  P PNone -> (forall b, P (PBool b)) -> (forall z, P (PInt z)) ->
  (forall s, P (PStr s)) ->
  (forall l, Forall P l -> P (PList l)) ->
  (forall d, Forall (fun kv => P (snd kv)) d -> P (PDict d)) ->
  (forall s, P (PDecimal s)) -> (forall b, P (PBinary b)) ->
  (forall l, P (PSet l)) ->
  forall v, P v.
Proof.
  intros HN HB HI HS HL HD HDec HBin HSet.
  fix IH 1. intros [ | b | z | s | l | d | s | b | l ].
  - exact HN.
  - apply HB.
  - apply HI.
  - apply HS.
  - apply HL. induction l as [|x l IHl]; constructor; [apply IH | exact IHl].
  - apply HD. induction d as [|[k x] d IHd]; constructor; [apply IH | exact IHd].
  - apply HDec.
  - apply HBin.
  - apply HSet.
Qed.

(** Skipping white space. *)
Lemma parse_value_space fuel s :
  parse_value fuel (ch_space :: s) = parse_value fuel s.
Proof. destruct fuel; reflexivity. Qed.

Lemma parse_elements_space fuel s :
  parse_elements fuel (ch_space :: s) = parse_elements fuel s.
Proof.
  destruct fuel; [reflexivity|]. cbn [parse_elements].
  now rewrite parse_value_space.
Qed.

Lemma parse_members_space fuel s :
  parse_members fuel (ch_space :: s) = parse_members fuel s.
Proof. destruct fuel; reflexivity. Qed.

Lemma number_start_not_closing c :
  is_number_start c = true ->
  is_ws c = false /\ (c =? ch_rbracket)%N = false /\ (c =? ch_rbrace)%N = false
  /\ (c =? ch_quote)%N = false.
Proof.
  unfold is_number_start, digit_of, is_ws. intros H.
  repeat match type of H with
         | context [N.eqb c ?k] =>
             destruct (N.eqb_spec c k); [subst c; repeat split; reflexivity|]
         end.
  discriminate H.
Qed.

Lemma encode_starts_value v out :
  Json.encode v = Return out -> starts_value out.
Proof.
  unfold starts_value.
  destruct v as [ | [|] | z | s | l | d | s | b | l ]; intros H;
    try discriminate H.
  - injection H as <-. simpl. eauto 10.
  - injection H as <-. simpl. eauto 10.
  - injection H as <-. simpl. eauto 10.
  - injection H as <-. simpl in *.
    destruct (int_repr_head z) as (c & r & E & Hs & _).
    apply number_start_not_closing in Hs. exists c, r. tauto.
  - injection H as <-. unfold Json.encode_basestring_ascii. eauto 10.
  - rewrite encode_list_eq in H. destruct (encode_items l); [|discriminate].
    injection H as <-. eauto 10.
  - rewrite encode_dict_eq in H. destruct (encode_members d); [|discriminate].
    injection H as <-. eauto 10.
Qed.

(** *** The round trip *)

Lemma size_pos v : 1 <= size v.
Proof. destruct v; simpl; lia. Qed.

Lemma encode_items_nonempty x l cs :
  encode_items (x :: l) = Return cs -> cs <> [].
Proof.
  rewrite encode_items_cons. destruct (Json.encode x); [|discriminate].
  destruct (encode_items l); [|discriminate]. intros [= <-]. discriminate.
Qed.

Lemma encode_members_nonempty kx d cs :
  encode_members (kx :: d) = Return cs -> cs <> [].
Proof.
  destruct kx as [k x]. rewrite encode_members_cons.
  destruct (Json.encode x); [|discriminate].
  destruct (encode_members d); [|discriminate]. intros [= <-]. discriminate.
Qed.

Lemma join_cons2 sep c c2 cs :
  Json.join sep (c :: c2 :: cs) = c ++ sep ++ Json.join sep (c2 :: cs).
Proof. reflexivity. Qed.

Lemma parse_elements_items l :
  Forall roundtrips l -> l <> [] ->
  forall cs, encode_items l = Return cs ->
  forall fuel rest,
    list_sum (map (fun x => S (size x)) l) <= fuel ->
    parse_elements fuel (Json.join (lit ", ") cs ++ ch_rbracket :: rest)
    = Some (map to_json l, rest).
Proof.
  induction 1 as [|x l Hx Hl IH]; [congruence|].
  intros _ cs Hcs fuel rest Hfuel.
  pose proof (size_pos x) as Hpos.
  rewrite encode_items_cons in Hcs.
  destruct (Json.encode x) as [c|] eqn:Ex; [|discriminate].
  destruct (encode_items l) as [cs'|] eqn:El; [|discriminate].
  injection Hcs as <-.
  cbn [map list_sum fold_right] in Hfuel. destruct fuel as [|fuel]; [lia|].
  cbn [parse_elements].
  destruct l as [|y l'].
  - injection El as <-. cbn [Json.join].
    rewrite (Hx c Ex fuel (ch_rbracket :: rest)); [reflexivity|lia|reflexivity].
  - destruct cs' as [|c2 cs'']; [now apply encode_items_nonempty in El|].
    rewrite join_cons2, <- !app_assoc.
    change (lit ", ") with [ch_comma; ch_space]. cbn [List.app].
    rewrite (Hx c Ex fuel); [|lia|reflexivity].
    cbn [skip_ws is_ws]. change (is_ws ch_comma) with false. cbv iota.
    change (ch_comma =? ch_rbracket)%N with false.
    change (ch_comma =? ch_comma)%N with true. cbv iota.
    rewrite parse_elements_space.
    rewrite (IH ltac:(discriminate) _ eq_refl); [reflexivity|].
    cbn [map list_sum fold_right] in *. lia.
Qed.

Lemma parse_members_items d :
  Forall (fun kv => roundtrips (snd kv)) d -> d <> [] ->
  forall cs, encode_members d = Return cs ->
  forall fuel rest,
    list_sum (map (fun kv => S (size (snd kv))) d) <= fuel ->
    parse_members fuel (Json.join (lit ", ") cs ++ ch_rbrace :: rest)
    = Some (map (fun kv => (units (fst kv), to_json (snd kv))) d, rest).
Proof.
  induction 1 as [|[k x] d Hx Hd IH]; [congruence|].
  intros _ cs Hcs fuel rest Hfuel. cbn [snd] in Hx.
  pose proof (size_pos x) as Hpos.
  rewrite encode_members_cons in Hcs.
  destruct (Json.encode x) as [c|] eqn:Ex; [|discriminate].
  destruct (encode_members d) as [cs'|] eqn:Ed; [|discriminate].
  injection Hcs as <-.
  cbn [map list_sum fold_right snd] in Hfuel. destruct fuel as [|fuel]; [lia|].
  cbn [parse_members].
  assert (Hkey : forall tail,
    (Json.encode_basestring_ascii k ++ lit ": " ++ c) ++ tail
    = ch_quote :: flat_map Json.escape_char k
        ++ ch_quote :: ch_colon :: ch_space :: c ++ tail).
  { intros tail. unfold Json.encode_basestring_ascii.
    change (lit ": ") with [ch_colon; ch_space].
    cbn [List.app]. rewrite <- !app_assoc. reflexivity. }
  destruct d as [|y d'].
  - injection Ed as <-. cbn [Json.join]. rewrite Hkey.
    cbn [skip_ws]. change (is_ws ch_quote) with false. cbv iota.
    change (ch_quote =? ch_quote)%N with true. cbn [negb].
    rewrite parse_chars_string.
    cbn [skip_ws]. change (is_ws ch_colon) with false. cbv iota.
    change (ch_colon =? ch_colon)%N with true. cbn [negb].
    rewrite parse_value_space.
    rewrite (Hx c Ex fuel (ch_rbrace :: rest)); [reflexivity|lia|reflexivity].
  - destruct cs' as [|c2 cs'']; [now apply encode_members_nonempty in Ed|].
    rewrite join_cons2, <- app_assoc, Hkey.
    cbn [skip_ws]. change (is_ws ch_quote) with false. cbv iota.
    change (ch_quote =? ch_quote)%N with true. cbn [negb].
    rewrite parse_chars_string.
    cbn [skip_ws]. change (is_ws ch_colon) with false. cbv iota.
    change (ch_colon =? ch_colon)%N with true. cbn [negb].
    rewrite parse_value_space.
    rewrite <- !app_assoc.
    change (lit ", ") with [ch_comma; ch_space]. cbn [List.app].
    rewrite (Hx c Ex fuel); [|lia|reflexivity].
    cbn [skip_ws]. change (is_ws ch_comma) with false. cbv iota.
    change (ch_comma =? ch_rbrace)%N with false.
    change (ch_comma =? ch_comma)%N with true. cbv iota.
    rewrite parse_members_space.
    rewrite (IH ltac:(discriminate) _ eq_refl); [reflexivity|].
    cbn [map list_sum fold_right] in *. lia.
Qed.

Theorem parse_encode v : roundtrips v.
Proof.
  induction v as [ | b | z | s | l IH | d IH | s | b | l ] using pyval_induction;
    intros out Hout fuel rest Hfuel Hrest; try discriminate Hout;
    (destruct fuel as [|fuel]; [pose proof (size_pos PNone); simpl in Hfuel; lia|]).
  - injection Hout as <-. reflexivity.
  - destruct b; injection Hout as <-; reflexivity.
  - cbn [Json.encode] in Hout. injection Hout as <-.
    destruct (int_repr_head z) as (c & r & E & Hs & Hw).
    pose proof (parse_int_repr z rest Hrest) as P.
    rewrite E in *. cbn [List.app] in *.
    cbn [parse_value skip_ws]. rewrite Hw, Hs, P. reflexivity.
  - cbn [Json.encode] in Hout. injection Hout as <-.
    unfold Json.encode_basestring_ascii. cbn [List.app]. rewrite <- app_assoc.
    cbn [List.app parse_value skip_ws].
    change (is_ws ch_quote) with false. cbv iota.
    change (is_number_start ch_quote) with false. cbv iota.
    change (ch_quote =? ch_quote)%N with true. cbv iota.
    rewrite parse_chars_string. reflexivity.
  - rewrite encode_list_eq in Hout.
    destruct (encode_items l) as [cs|] eqn:El; [|discriminate].
    injection Hout as <-. cbn [List.app]. rewrite <- app_assoc. cbn [List.app].
    cbn [parse_value skip_ws].
    change (is_ws ch_lbracket) with false. cbv iota.
    change (is_number_start ch_lbracket) with false. cbv iota.
    change (ch_lbracket =? ch_quote)%N with false.
    change (ch_lbracket =? ch_lbracket)%N with true. cbv iota.
    destruct l as [|x l'].
    + injection El as <-. reflexivity.
    + rewrite (parse_elements_items _ IH ltac:(discriminate) _ El);
        [|cbn [size] in Hfuel; lia].
      rewrite encode_items_cons in El.
      destruct (Json.encode x) as [c|] eqn:Ex; [|discriminate].
      destruct (encode_items l') as [cs'|]; [|discriminate].
      injection El as <-.
      destruct (encode_starts_value _ _ Ex) as (h & t & -> & Hw & Hb & _).
      destruct cs'; cbn [Json.join List.app skip_ws]; rewrite Hw, Hb;
        reflexivity.
  - rewrite encode_dict_eq in Hout.
    destruct (encode_members d) as [cs|] eqn:Ed; [|discriminate].
    injection Hout as <-. cbn [List.app]. rewrite <- app_assoc. cbn [List.app].
    cbn [parse_value skip_ws].
    change (is_ws ch_lbrace) with false. cbv iota.
    change (is_number_start ch_lbrace) with false. cbv iota.
    change (ch_lbrace =? ch_quote)%N with false.
    change (ch_lbrace =? ch_lbracket)%N with false.
    change (ch_lbrace =? ch_lbrace)%N with true. cbv iota.
    destruct d as [|[k x] d'].
    + injection Ed as <-. reflexivity.
    + rewrite (parse_members_items _ IH ltac:(discriminate) _ Ed);
        [|cbn [size] in Hfuel; lia].
      rewrite encode_members_cons in Ed.
      destruct (Json.encode x) as [c|] eqn:Ex; [|discriminate].
      destruct (encode_members d') as [cs'|]; [|discriminate].
      injection Ed as <-.
      unfold Json.encode_basestring_ascii. cbn [List.app].
      destruct cs'; cbn [Json.join List.app skip_ws]; reflexivity.
Qed.

(** *** Fuel *)

Lemma join_length (c : pystr) (cs : list pystr) :
  cs <> [] ->
  List.length (Json.join (lit ", ") (c :: cs))
  = List.length c + 2 + List.length (Json.join (lit ", ") cs).
Proof.
  destruct cs as [|c2 cs]; [congruence|]. intros _.
  rewrite join_cons2, !length_app. simpl List.length at 2. lia.
Qed.

Lemma items_fit l :
  Forall fits l -> l <> [] ->
  forall cs, encode_items l = Return cs ->
  list_sum (map (fun x => S (size x)) l)
  <= List.length (Json.join (lit ", ") cs) + 2.
Proof.
  induction 1 as [|x l Hx Hl IH]; [congruence|]. intros _ cs Hcs.
  rewrite encode_items_cons in Hcs.
  destruct (Json.encode x) as [c|] eqn:Ex; [|discriminate].
  destruct (encode_items l) as [cs'|] eqn:El; [|discriminate].
  injection Hcs as <-. specialize (Hx c Ex).
  cbn [map list_sum fold_right].
  destruct l as [|y l'].
  - injection El as <-. cbn [Json.join map list_sum fold_right]. lia.
  - rewrite join_length by (now apply encode_items_nonempty in El).
    specialize (IH ltac:(discriminate) _ eq_refl).
    cbn [map list_sum fold_right] in *. lia.
Qed.

Lemma members_fit d :
  Forall (fun kv => fits (snd kv)) d -> d <> [] ->
  forall cs, encode_members d = Return cs ->
  list_sum (map (fun kv => S (size (snd kv))) d)
  <= List.length (Json.join (lit ", ") cs) + 2.
Proof.
  induction 1 as [|[k x] d Hx Hd IH]; [congruence|]. intros _ cs Hcs.
  rewrite encode_members_cons in Hcs. cbn [snd] in Hx.
  destruct (Json.encode x) as [c|] eqn:Ex; [|discriminate].
  destruct (encode_members d) as [cs'|] eqn:Ed; [|discriminate].
  injection Hcs as <-. specialize (Hx c Ex).
  cbn [map list_sum fold_right snd].
  destruct d as [|y d'].
  - injection Ed as <-. cbn [Json.join map list_sum fold_right].
    cbn [List.length]. rewrite !length_app. cbn [List.length]. lia.
  - rewrite join_length by (now apply encode_members_nonempty in Ed).
    specialize (IH ltac:(discriminate) _ eq_refl).
    unfold Json.encode_basestring_ascii.
    cbn [List.length List.app]. rewrite !length_app. cbn [List.length].
    cbn [map list_sum fold_right] in *. lia.
Qed.

Lemma encode_fits v : fits v.
Proof.
  induction v as [ | b | z | s | l IH | d IH | s | b | l ] using pyval_induction;
    intros out Hout; try discriminate Hout; try (simpl; lia).
  - rewrite encode_list_eq in Hout.
    destruct (encode_items l) as [cs|] eqn:El; [|discriminate].
    injection Hout as <-. cbn [size List.length]. rewrite length_app.
    destruct l as [|x l']; [simpl; lia|].
    pose proof (items_fit _ IH ltac:(discriminate) _ El) as F.
    change (lit ", ") with [44; 32]%N in F. cbn [List.length]. lia.
  - rewrite encode_dict_eq in Hout.
    destruct (encode_members d) as [cs|] eqn:Ed; [|discriminate].
    injection Hout as <-. cbn [size List.length]. rewrite length_app.
    destruct d as [|x d']; [simpl; lia|].
    pose proof (members_fit _ IH ltac:(discriminate) _ Ed) as F.
    change (lit ", ") with [44; 32]%N in F. cbn [List.length]. lia.
Qed.

(** Reading back what [json.dumps] wrote. *)
Theorem loads_dumps v out :
  Json.dumps v = Return out -> loads out = Some (to_json v).
Proof.
  intros H. unfold loads, Json.dumps in *.
  pose proof (parse_encode v out H (S (List.length out)) []
                (encode_fits v out H) I) as P.
  rewrite List.app_nil_r in P. rewrite P. reflexivity.
Qed.

Lemma record_list_array v :
  is_record_list v = true -> is_record_array (to_json v) = true.
Proof.
  destruct v as [ | | | | l | | | | ]; try discriminate. simpl.
  induction l as [|x l IH]; [reflexivity|]. simpl.
  intros H. apply andb_prop in H as [Hx Hl].
  rewrite (IH Hl), andb_true_r. now destruct x.
Qed.

Lemma loads_error_body msg :
  loads (error_body msg) = Some (JObj [(lit "error", JStr (units msg))]).
Proof.
  rewrite (loads_dumps (PDict [(lit "error", PStr msg)]) (error_body msg)
             (dumps_error msg)).
  reflexivity.
Qed.

End JsonFacts.

(** ** What [json.dumps] refuses and what it writes with *)

Module EncodeFacts.
Import JsonText JsonAux JsonFacts.

(** *** Which values are refused *)

Lemma encode_items_outcome l :
  Forall (fun x =>
            match first_unserializable x with
            | Some cls => Json.encode x = Raise (Json.not_serializable cls)
            | None => exists out, Json.encode x = Return out
            end) l ->
  match first_unserializable (PList l) with
  | Some cls => encode_items l = Raise (Json.not_serializable cls)
  | None => exists cs, encode_items l = Return cs
  end.
Proof.
  induction 1 as [|x l Hx _ IH]; [simpl; eauto|].
  rewrite encode_items_cons.
  change (first_unserializable (PList (x :: l)))
    with (match first_unserializable x with
          | Some cls => Some cls
          | None => first_unserializable (PList l)
          end).
  destruct (first_unserializable x) as [cls|].
  - now rewrite Hx.
  - destruct Hx as (c & ->).
    destruct (first_unserializable (PList l)) as [cls|].
    + now rewrite IH.
    + destruct IH as (cs & ->). eauto.
Qed.

Lemma encode_members_outcome d :
  Forall (fun kv =>
            match first_unserializable (snd kv) with
            | Some cls => Json.encode (snd kv) = Raise (Json.not_serializable cls)
            | None => exists out, Json.encode (snd kv) = Return out
            end) d ->
  match first_unserializable (PDict d) with
  | Some cls => encode_members d = Raise (Json.not_serializable cls)
  | None => exists cs, encode_members d = Return cs
  end.
Proof.
  induction 1 as [|[k x] d Hx _ IH]; [simpl; eauto|].
  rewrite encode_members_cons. cbn [snd] in Hx.
  change (first_unserializable (PDict ((k, x) :: d)))
    with (match first_unserializable x with
          | Some cls => Some cls
          | None => first_unserializable (PDict d)
          end).
  destruct (first_unserializable x) as [cls|].
  - now rewrite Hx.
  - destruct Hx as (c & ->).
    destruct (first_unserializable (PDict d)) as [cls|].
    + now rewrite IH.
    + destruct IH as (cs & ->). eauto.
Qed.

(** [json.dumps] raises exactly when some object it cannot encode occurs
    in the value, and the [TypeError] names the first one. *)
Lemma encode_outcome v :
  match first_unserializable v with
  | Some cls => Json.encode v = Raise (Json.not_serializable cls)
  | None => exists out, Json.encode v = Return out
  end.
Proof.
  induction v as [ | b | z | s | l IH | d IH | s | b | l ] using pyval_induction;
    try (simpl; eauto; fail).
  - destruct b; simpl; eauto.
  - rewrite encode_list_eq. pose proof (encode_items_outcome l IH) as H.
    destruct (first_unserializable (PList l)) as [cls|].
    + now rewrite H.
    + destruct H as (cs & ->). eauto.
  - rewrite encode_dict_eq. pose proof (encode_members_outcome d IH) as H.
    destruct (first_unserializable (PDict d)) as [cls|].
    + now rewrite H.
    + destruct H as (cs & ->). eauto.
Qed.

Lemma dumps_returns_iff v :
  (exists out, Json.dumps v = Return out) <-> first_unserializable v = None.
Proof.
  unfold Json.dumps. pose proof (encode_outcome v) as H.
  destruct (first_unserializable v) as [cls|]; split; auto.
  - intros (out & E). congruence.
  - discriminate.
Qed.

Lemma dumps_raises v cls :
  first_unserializable v = Some cls ->
  Json.dumps v = Raise (Json.not_serializable cls).
Proof.
  intros H. pose proof (encode_outcome v) as E. now rewrite H in E.
Qed.

(** *** The characters [json.dumps] writes with *)

Lemma printable_lit_sep :
  Forall printable (lit ", ") /\ Forall printable (lit ": ").
Proof. split; repeat constructor; unfold printable; simpl; lia. Qed.

Lemma digits_printable u : Forall printable (Json.digits u).
Proof.
  induction u; simpl; constructor; auto; unfold printable; lia.
Qed.

Lemma int_repr_printable z : Forall printable (Json.int_repr z).
Proof.
  unfold Json.int_repr. destruct (Z.to_int z).
  - apply digits_printable.
  - constructor; [unfold printable, ch_minus; lia | apply digits_printable].
Qed.

Lemma hex_digit_printable d : (d < 16)%N -> printable (Json.hex_digit d).
Proof.
  intros H. unfold Json.hex_digit, printable.
  destruct (N.ltb_spec d 10); lia.
Qed.

Lemma u_escape_printable n : Forall printable (Json.u_escape n).
Proof.
  unfold Json.u_escape, Json.hex4.
  repeat constructor; try (unfold printable, ch_backslash; lia);
    apply hex_digit_printable; apply N.mod_lt; discriminate.
Qed.

Lemma escape_char_printable c : Forall printable (Json.escape_char c).
Proof.
  unfold Json.escape_char.
  repeat match goal with
         | |- context [N.eqb c ?k] =>
             destruct (N.eqb_spec c k);
             [repeat constructor; unfold printable, ch_backslash, ch_quote; lia|]
         end.
  destruct (N.leb_spec 32 c); simpl andb.
  - destruct (N.leb_spec c 126).
    + repeat constructor; unfold printable; lia.
    + destruct (N.ltb_spec c 65536); [apply u_escape_printable|].
      cbv zeta. apply Forall_app; split; apply u_escape_printable.
  - destruct (N.ltb_spec c 65536); [apply u_escape_printable|].
    cbv zeta. apply Forall_app; split; apply u_escape_printable.
Qed.

Lemma basestring_printable s :
  Forall printable (Json.encode_basestring_ascii s).
Proof.
  unfold Json.encode_basestring_ascii. constructor.
  - unfold printable, ch_quote; lia.
  - apply Forall_app; split.
    + induction s as [|c s IH]; simpl; [constructor|].
      apply Forall_app; split; [apply escape_char_printable | exact IH].
    + repeat constructor; unfold printable, ch_quote; lia.
Qed.

Lemma join_printable (cs : list pystr) :
  Forall (Forall printable) cs ->
  Forall printable (Json.join (lit ", ") cs).
Proof.
  induction 1 as [|c cs Hc Hcs IH]; [constructor|].
  destruct cs as [|c2 cs]; [exact Hc|].
  rewrite join_cons2. apply Forall_app; split; [exact Hc|].
  apply Forall_app; split; [apply printable_lit_sep | exact IH].
Qed.

Lemma encode_printable v out :
  Json.encode v = Return out -> Forall printable out.
Proof.
  revert out.
  induction v as [ | b | z | s | l IH | d IH | s | b | l ] using pyval_induction;
    intros out Hout; try discriminate Hout.
  - injection Hout as <-. repeat constructor; unfold printable; simpl; lia.
  - destruct b; injection Hout as <-;
      repeat constructor; unfold printable; simpl; lia.
  - injection Hout as <-. apply int_repr_printable.
  - injection Hout as <-. apply basestring_printable.
  - rewrite encode_list_eq in Hout.
    destruct (encode_items l) as [cs|] eqn:El; [|discriminate].
    injection Hout as <-.
    assert (Hcs : Forall (Forall printable) cs).
    { clear - IH El. revert cs El.
      induction IH as [|x l Hx _ IHl]; intros cs El.
      - injection El as <-. constructor.
      - rewrite encode_items_cons in El.
        destruct (Json.encode x) as [c|] eqn:Ex; [|discriminate].
        destruct (encode_items l) as [cs'|]; [|discriminate].
        injection El as <-. constructor; auto. }
    constructor; [unfold printable, ch_lbracket; lia|].
    apply Forall_app; split; [now apply join_printable|].
    repeat constructor; unfold printable, ch_rbracket; lia.
  - rewrite encode_dict_eq in Hout.
    destruct (encode_members d) as [cs|] eqn:Ed; [|discriminate].
    injection Hout as <-.
    assert (Hcs : Forall (Forall printable) cs).
    { clear - IH Ed. revert cs Ed.
      induction IH as [|[k x] d Hx _ IHd]; intros cs Ed.
      - injection Ed as <-. constructor.
      - rewrite encode_members_cons in Ed. cbn [snd] in Hx.
        destruct (Json.encode x) as [c|] eqn:Ex; [|discriminate].
        destruct (encode_members d) as [cs'|]; [|discriminate].
        set (chunk := Json.encode_basestring_ascii k ++ lit ": " ++ c) in Ed.
        injection Ed as <-. constructor; auto. subst chunk.
        apply Forall_app; split; [apply basestring_printable|].
        apply Forall_app; split; [apply printable_lit_sep | auto]. }
    constructor; [unfold printable, ch_lbrace; lia|].
    apply Forall_app; split; [now apply join_printable|].
    repeat constructor; unfold printable, ch_rbrace; lia.
Qed.

Lemma error_body_printable msg : Forall printable (error_body msg).
Proof. apply (encode_printable _ _ (dumps_error msg)). Qed.

(** *** Strings written as they are *)

Lemma escape_plain s :
  Forall plain s -> flat_map Json.escape_char s = s.
Proof.
  induction 1 as [|c s (Hlo & Hhi & Hq & Hb) _ IH]; [reflexivity|].
  cbn [flat_map]. rewrite IH. unfold Json.escape_char.
  apply N.eqb_neq in Hq, Hb. rewrite Hq, Hb.
  repeat match goal with
         | |- context [N.eqb c ?k] => destruct (N.eqb_spec c k); [lia|]
         end.
  destruct (N.leb_spec 32 c); [|lia]. destruct (N.leb_spec c 126); [|lia].
  reflexivity.
Qed.

Lemma basestring_plain s :
  Forall plain s -> Json.encode_basestring_ascii s = ch_quote :: s ++ [ch_quote].
Proof.
  intros H. unfold Json.encode_basestring_ascii. now rewrite escape_plain.
Qed.

(** *** Strings of the basic plane *)

Lemma units_bmp s : Forall bmp s -> units s = s.
Proof.
  unfold units. induction 1 as [|c s Hc _ IH]; [reflexivity|].
  cbn [flat_map]. rewrite IH. unfold utf16. unfold bmp in Hc.
  destruct (N.ltb_spec c 65536); [reflexivity|lia].
Qed.

End EncodeFacts.

(* ================================================================= *)
(** ** The handler, case by case *)

(** The four ways through [lambda_handler]: the scan raises; the response
    has no [Items]; [json.dumps] raises; everything succeeds. *)
Lemma lambda_handler_cases event context w :
  lambda_handler event context w =
    match table w None with
    | ScanFail e =>
        (Return (mkEnvelope 500 cors_headers (error_body (exc_str e))),
         after_scan w)
    | ScanOk response =>
        match lookup (lit "Items") response with
        | None =>
            (Return (mkEnvelope 500 cors_headers
                       (error_body (exc_str (KeyError (lit "Items"))))),
             after_scan w)
        | Some items =>
            match Json.dumps items with
            | Raise e =>
                (Return (mkEnvelope 500 cors_headers (error_body (exc_str e))),
                 after_scan w)
            | Return b =>
                (Return (mkEnvelope 200 cors_headers b), after_scan w)
            end
        end
    end.
Proof.
  unfold lambda_handler, try_except, bind, table_scan, lift, ret, getitem,
    after_scan.
  destruct (table w None) as [response|e]; [|reflexivity].
  destruct (lookup (lit "Items") response) as [items|]; [|reflexivity].
  destruct (Json.dumps items); reflexivity.
Qed.

(** Case analysis along [lambda_handler_cases]. *)
Ltac handler_cases w :=
  rewrite lambda_handler_cases;
  let response := fresh "response" in
  let e := fresh "e" in
  let items := fresh "items" in
  let Et := fresh "Escan" in
  let Ei := fresh "Eitems" in
  let Ed := fresh "Edumps" in
  destruct (table w None) as [response|e] eqn:Et;
  [ destruct (lookup (lit "Items") response) as [items|] eqn:Ei;
    [ destruct (Json.dumps items) as [?b|?e] eqn:Ed | ] | ].

(** A 200 envelope comes from one path only. *)
Lemma success_inversion event context w env w' :
  lambda_handler event context w = (Return env, w') ->
  statusCode env = 200%Z ->
  exists response items,
    table w None = ScanOk response
    /\ lookup (lit "Items") response = Some items
    /\ Json.dumps items = Return (body env).
Proof.
  handler_cases w; intros [= <- <-] Hs; try discriminate Hs.
  exists response, items. auto.
Qed.

(** The body of a 500 envelope is an error object. *)
Lemma failure_inversion event context w env w' :
  lambda_handler event context w = (Return env, w') ->
  statusCode env = 500%Z ->
  exists msg, body env = error_body msg.
Proof.
  handler_cases w; intros [= <- <-] Hs; try discriminate Hs; simpl; eauto.
Qed.

Lemma status_200_or_500 event context w env w' :
  lambda_handler event context w = (Return env, w') ->
  statusCode env = 200%Z \/ statusCode env = 500%Z.
Proof.
  handler_cases w; intros [= <- <-]; simpl; auto.
Qed.

(** *** The handler on the sample tables *)

Example two_pages_first_only :
  exists b,
    lambda_handler PNone PNone two_page_world
    = (Return (mkEnvelope 200 cors_headers b), after_scan two_page_world)
    /\ JsonText.loads b
       = Some (JsonText.JArr
                 [JsonText.JObj [(lit "id", JsonText.JStr (lit "a"));
                                 (lit "region", JsonText.JStr (lit "us-east-1"))]]).
Proof. eexists. split; vm_compute; reflexivity. Qed.

Example decimal_row_is_an_error :
  lambda_handler PNone PNone decimal_world
  = (Return (mkEnvelope 500 cors_headers
               (error_body (lit "Object of type Decimal is not JSON serializable"))),
     after_scan decimal_world).
Proof. reflexivity. Qed.

Example missing_items_is_an_error :
  lambda_handler PNone PNone count_only_world
  = (Return (mkEnvelope 500 cors_headers (error_body (lit "'Items'"))),
     after_scan count_only_world).
Proof. reflexivity. Qed.

Example non_ascii_is_escaped :
  Json.dumps (PStr [128512; 233; 10; 127]%N)
  = Return (ch_quote :: lit "\ud83d\ude00\u00e9\n\u007f" ++ [ch_quote]).
Proof. reflexivity. Qed.

(* ================================================================= *)
(** ** The claims *)

(** C1, as stated, fails: on a table of two rows served one per page the
    handler succeeds, the paginated read of the specification collects
    both rows, and the body is not the JSON array of both. *)
Lemma pagination_counterexample :
  ~ (forall event context w env w' fuel records,
        lambda_handler event context w = (Return env, w') ->
        statusCode env = 200%Z ->
        spec_read_all fuel (table w) None = Some (Return records) ->
        Json.dumps (PList records) = Return (body env)).
Proof.
  intros H.
  specialize (H PNone PNone two_page_world _ _ 2 [row_a; row_b]
                (lambda_handler_cases PNone PNone two_page_world)
                eq_refl eq_refl).
  vm_compute in H. discriminate H.
Qed.

(** C1, amended: a successful call returns the envelope whose body is the
    JSON text of the [Items] of the first scan page, in the order
    received; the handler follows no continuation token.  When that page
    carries no token, its records are all the records the paginated read
    of the specification collects. *)
Theorem first_page_returned event context w env w' :
  lambda_handler event context w = (Return env, w') ->
  statusCode env = 200%Z ->
  exists response items,
    table w None = ScanOk response
    /\ lookup (lit "Items") response = Some items
    /\ Json.dumps items = Return (body env)
    /\ requests w' = requests w ++ [None]
    /\ (forall page fuel,
          items = PList page ->
          lookup (lit "LastEvaluatedKey") response = None ->
          spec_read_all (S fuel) (table w) None = Some (Return page)).
Proof.
  intros H Hs.
  destruct (success_inversion _ _ _ _ _ H Hs) as (response & items & Ht & Hi & Hd).
  exists response, items. repeat split; auto.
  - rewrite lambda_handler_cases, Ht, Hi, Hd in H. now injection H as _ <-.
  - intros page fuel -> Hk. cbn [spec_read_all]. now rewrite Ht, Hi, Hk.
Qed.

Lemma first_page_returned_witness :
  exists env w',
    lambda_handler PNone PNone one_page_world = (Return env, w')
    /\ statusCode env = 200%Z
    /\ exists response items,
         table one_page_world None = ScanOk response
         /\ lookup (lit "Items") response = Some items
         /\ Json.dumps items = Return (body env)
         /\ requests w' = requests one_page_world ++ [None]
         /\ (forall page fuel,
               items = PList page ->
               lookup (lit "LastEvaluatedKey") response = None ->
               spec_read_all (S fuel) (table one_page_world) None
               = Some (Return page)).
Proof.
  eexists _, _. split; [vm_compute; reflexivity|]. split; [reflexivity|].
  apply (first_page_returned PNone PNone one_page_world); reflexivity.
Defined.

(** C2: the handler never raises.  Whatever the scan does, the call
    returns an envelope with the fixed headers; a failure of the scan, a
    response without [Items] and a failure of [json.dumps] each become the
    500 envelope that carries the exception's message. *)
Theorem handler_never_raises event context w :
  exists env,
    lambda_handler event context w = (Return env, after_scan w)
    /\ headers env = cors_headers
    /\ match table w None with
       | ScanFail e =>
           statusCode env = 500%Z /\ body env = error_body (exc_str e)
       | ScanOk response =>
           match getitem response (lit "Items") with
           | Raise e =>
               statusCode env = 500%Z /\ body env = error_body (exc_str e)
           | Return items =>
               match Json.dumps items with
               | Raise e =>
                   statusCode env = 500%Z /\ body env = error_body (exc_str e)
               | Return b => statusCode env = 200%Z /\ body env = b
               end
           end
       end.
Proof.
  unfold getitem. handler_cases w; eexists; repeat split; reflexivity.
Qed.

(** C3, as stated, fails: the first page is served with a continuation
    token, the request for the second page would raise, and the handler
    answers 200. *)
Lemma second_page_failure_counterexample :
  ~ (forall event context w response token e env w',
        table w None = ScanOk response ->
        lookup (lit "LastEvaluatedKey") response = Some token ->
        table w (Some token) = ScanFail e ->
        lambda_handler event context w = (Return env, w') ->
        statusCode env = 500%Z).
Proof.
  intros H.
  specialize (H PNone PNone half_failing_world _ (PInt 1) throttled _ _
                eq_refl eq_refl eq_refl
                (lambda_handler_cases PNone PNone half_failing_world)).
  vm_compute in H. discriminate H.
Qed.

(** C3, amended: the handler sends one Scan request, for the first page,
    and never requests a second page; its result is decided by the answer
    to that one request.  When the first page is served with a
    continuation token and its records serialise, the result is the 200
    envelope of those records, whatever a request for the second page
    would do.  A 500 envelope arises only from a failure of the first
    page request, a response without [Items], or a failure of
    [json.dumps]. *)
Theorem first_page_decides event context w :
  exists env,
    lambda_handler event context w
    = (Return env, mkWorld (table w) (requests w ++ [None]))
    /\ (forall w2,
          table w2 None = table w None ->
          fst (lambda_handler event context w2) = Return env)
    /\ (forall response token items b,
          table w None = ScanOk response ->
          lookup (lit "LastEvaluatedKey") response = Some token ->
          lookup (lit "Items") response = Some items ->
          Json.dumps items = Return b ->
          env = mkEnvelope 200 cors_headers b)
    /\ (statusCode env = 500%Z
        <-> (exists e, table w None = ScanFail e)
            \/ (exists response,
                   table w None = ScanOk response
                   /\ lookup (lit "Items") response = None)
            \/ (exists response items e,
                   table w None = ScanOk response
                   /\ lookup (lit "Items") response = Some items
                   /\ Json.dumps items = Raise e)).
Proof.
  destruct (lambda_handler event context w) as [r w'] eqn:H.
  pose proof H as Hcases. rewrite lambda_handler_cases in Hcases.
  assert (Hind : forall w2, table w2 None = table w None ->
                 fst (lambda_handler event context w2) = r).
  { intros w2 E. rewrite lambda_handler_cases, E.
    destruct (table w None) as [response|e].
    - destruct (lookup (lit "Items") response) as [items|].
      + destruct (Json.dumps items); now injection Hcases as <- _.
      + now injection Hcases as <- _.
    - now injection Hcases as <- _. }
  destruct (table w None) as [response|e] eqn:Ht.
  - destruct (lookup (lit "Items") response) as [items|] eqn:Hi.
    + destruct (Json.dumps items) as [b|e] eqn:Hd;
        injection Hcases as <- <-; eexists; (split; [reflexivity|]);
        (split; [exact Hind|]); split.
      * intros r2 token items2 b2 [= <-] _ Hi2 Hd2. congruence.
      * cbn [statusCode]. split; [discriminate|].
        intros [(e & He) | [(r2 & [= <-] & Hn) | (r2 & i2 & e & [= <-] & Hi2 & Hd2)]];
          congruence.
      * intros r2 token items2 b2 [= <-] _ Hi2 Hd2. congruence.
      * cbn [statusCode]. split; [|reflexivity].
        intros _. right. right. exists response, items, e. auto.
    + injection Hcases as <- <-; eexists; (split; [reflexivity|]);
        (split; [exact Hind|]); split.
      * intros r2 token items2 b2 [= <-] _ Hi2 _. congruence.
      * cbn [statusCode]. split; [|reflexivity].
        intros _. right. left. exists response. auto.
  - injection Hcases as <- <-; eexists; (split; [reflexivity|]);
      (split; [exact Hind|]); split.
    + intros r2 token items2 b2 [=].
    + cbn [statusCode]. split; [|reflexivity]. intros _. left. eauto.
Qed.

Lemma first_page_decides_witness :
  exists b,
    table half_failing_world None
    = ScanOk [(lit "Items", PList [row_a]); (lit "LastEvaluatedKey", PInt 1)]
    /\ table half_failing_world (Some (PInt 1)) = ScanFail throttled
    /\ Json.dumps (PList [row_a]) = Return b
    /\ lambda_handler PNone PNone half_failing_world
       = (Return (mkEnvelope 200 cors_headers b),
          mkWorld (table half_failing_world)
                  (requests half_failing_world ++ [None])).
Proof.
  destruct (first_page_decides PNone PNone half_failing_world)
    as (env & H & _ & H200 & _).
  eexists. split; [reflexivity|]. split; [reflexivity|].
  split; [vm_compute; reflexivity|].
  rewrite H.
  rewrite (H200 [(lit "Items", PList [row_a]); (lit "LastEvaluatedKey", PInt 1)]
             (PInt 1) (PList [row_a]) _ eq_refl eq_refl eq_refl eq_refl).
  reflexivity.
Defined.

(** C4: every envelope the handler returns, with either status, has
    exactly the two fixed headers, [Content-Type: application/json] and
    [Access-Control-Allow-Origin: *]. *)
Theorem fixed_headers event context w env w' :
  lambda_handler event context w = (Return env, w') ->
  headers env =
    [ (lit "Content-Type", lit "application/json");
      (lit "Access-Control-Allow-Origin", lit "*") ].
Proof.
  handler_cases w; intros [= <- <-]; reflexivity.
Qed.

Lemma fixed_headers_witness :
  exists env w',
    lambda_handler PNone PNone failing_world = (Return env, w')
    /\ headers env =
         [ (lit "Content-Type", lit "application/json");
           (lit "Access-Control-Allow-Origin", lit "*") ].
Proof.
  eexists _, _. split; [vm_compute; reflexivity|].
  apply (fixed_headers PNone PNone failing_world _ (after_scan failing_world)).
  reflexivity.
Defined.

(** C5: the body of every returned envelope is valid JSON of the
    documented shape.  It always parses; with status 500 it is an object
    whose one member is a string named [error]; with status 200 it is an
    array of objects, the scan's [Items] being a list of records. *)
Theorem body_is_json event context w env w' :
  lambda_handler event context w = (Return env, w') ->
  (forall response items,
      table w None = ScanOk response ->
      lookup (lit "Items") response = Some items ->
      is_record_list items = true) ->
  exists j,
    JsonText.loads (body env) = Some j
    /\ ((statusCode env = 200%Z /\ JsonText.is_record_array j = true)
        \/ (statusCode env = 500%Z /\ JsonText.is_error_object j = true)).
Proof.
  intros H Hshape.
  destruct (status_200_or_500 _ _ _ _ _ H) as [Hs|Hs].
  - destruct (success_inversion _ _ _ _ _ H Hs)
      as (response & items & Ht & Hi & Hd).
    exists (JsonText.to_json items). split.
    + now apply JsonFacts.loads_dumps.
    + left. split; [assumption|].
      apply JsonFacts.record_list_array. now apply (Hshape response).
  - destruct (failure_inversion _ _ _ _ _ H Hs) as (msg & ->).
    eexists. split; [apply JsonFacts.loads_error_body|].
    right. split; [assumption|reflexivity].
Qed.

Lemma body_is_json_witness :
  exists env w',
    lambda_handler PNone PNone one_page_world = (Return env, w')
    /\ (forall response items,
           table one_page_world None = ScanOk response ->
           lookup (lit "Items") response = Some items ->
           is_record_list items = true)
    /\ exists j,
         JsonText.loads (body env) = Some j
         /\ ((statusCode env = 200%Z /\ JsonText.is_record_array j = true)
             \/ (statusCode env = 500%Z /\ JsonText.is_error_object j = true)).
Proof.
  assert (Hshape : forall response items,
             table one_page_world None = ScanOk response ->
             lookup (lit "Items") response = Some items ->
             is_record_list items = true).
  { intros response items Ht Hi. vm_compute in Ht. injection Ht as <-.
    vm_compute in Hi. injection Hi as <-. reflexivity. }
  eexists _, _. split; [vm_compute; reflexivity|]. split; [exact Hshape|].
  apply (body_is_json PNone PNone one_page_world _ (after_scan one_page_world));
    [reflexivity | exact Hshape].
Defined.

(** C6: when the scan raises on the first page request, the handler
    returns the envelope with status 500 whose body is the JSON object
    with the one member [error], the exception's message as a string. *)
Theorem first_page_failure event context w e :
  table w None = ScanFail e ->
  exists env w',
    lambda_handler event context w = (Return env, w')
    /\ statusCode env = 500%Z
    /\ Json.dumps (PDict [(lit "error", PStr (exc_str e))]) = Return (body env)
    /\ JsonText.loads (body env)
       = Some (JsonText.JObj
                 [(lit "error", JsonText.JStr (JsonText.units (exc_str e)))]).
Proof.
  intros Ht. rewrite lambda_handler_cases, Ht.
  eexists _, _. split; [reflexivity|]. cbn [statusCode body].
  split; [reflexivity|]. split; [apply dumps_error|].
  apply JsonFacts.loads_error_body.
Qed.

Lemma first_page_failure_witness :
  table failing_world None = ScanFail throttled
  /\ exists env w',
       lambda_handler PNone PNone failing_world = (Return env, w')
       /\ statusCode env = 500%Z
       /\ Json.dumps (PDict [(lit "error", PStr (exc_str throttled))])
          = Return (body env)
       /\ JsonText.loads (body env)
          = Some (JsonText.JObj
                    [(lit "error",
                      JsonText.JStr (JsonText.units (exc_str throttled)))]).
Proof.
  split; [reflexivity|].
  apply (first_page_failure PNone PNone failing_world throttled). reflexivity.
Defined.

(** C7: for an empty table (the scan returns no item and no continuation
    token) the handler returns status 200 and the body [[]]. *)
Theorem empty_table event context w response :
  table w None = ScanOk response ->
  lookup (lit "Items") response = Some (PList []) ->
  lookup (lit "LastEvaluatedKey") response = None ->
  exists env w',
    lambda_handler event context w = (Return env, w')
    /\ statusCode env = 200%Z
    /\ body env = lit "[]".
Proof.
  intros Ht Hi _. rewrite lambda_handler_cases, Ht, Hi.
  eexists _, _. split; [reflexivity|]. split; reflexivity.
Qed.

Lemma empty_table_witness :
  exists response,
    table empty_world None = ScanOk response
    /\ lookup (lit "Items") response = Some (PList [])
    /\ lookup (lit "LastEvaluatedKey") response = None
    /\ exists env w',
         lambda_handler PNone PNone empty_world = (Return env, w')
         /\ statusCode env = 200%Z
         /\ body env = lit "[]".
Proof.
  eexists. split; [vm_compute; reflexivity|].
  split; [reflexivity|]. split; [reflexivity|].
  apply (empty_table PNone PNone empty_world
           [(lit "Items", PList []); (lit "Count", PInt 0)]); reflexivity.
Defined.

(** C8: the handler only reads.  After any call, successful or not, the
    table is what it was before; the one effect is a single Scan request
    for the first page. *)
Theorem table_unchanged event context w :
  table (snd (lambda_handler event context w)) = table w
  /\ requests (snd (lambda_handler event context w)) = requests w ++ [None].
Proof.
  handler_cases w; split; reflexivity.
Qed.

(** C9: the result does not depend on the invocation: two calls with any
    events and contexts against the same table return the same envelope
    (and leave the same world). *)
Theorem event_independence event1 context1 event2 context2 w :
  lambda_handler event1 context1 w = lambda_handler event2 context2 w.
Proof.
  now rewrite !lambda_handler_cases.
Qed.

(** C10: the status code of every envelope the handler returns is 200 or
    500. *)
Theorem status_code_range event context w env w' :
  lambda_handler event context w = (Return env, w') ->
  statusCode env = 200%Z \/ statusCode env = 500%Z.
Proof.
  handler_cases w; intros [= <- <-]; simpl; auto.
Qed.

Lemma status_code_range_witness :
  exists env w',
    lambda_handler PNone PNone two_page_world = (Return env, w')
    /\ (statusCode env = 200%Z \/ statusCode env = 500%Z).
Proof.
  eexists _, _. split; [vm_compute; reflexivity|].
  apply (status_code_range PNone PNone two_page_world _
           (after_scan two_page_world)).
  reflexivity.
Defined.

(* ================================================================= *)
(** ** Further properties of the handler *)

(** X1: a scan response without the key [Items] is an error, not an
    empty result: the [KeyError] of [response['Items']] is caught and
    reported, status 500 with the message ['Items']. *)
Theorem missing_items_key event context w response :
  table w None = ScanOk response ->
  lookup (lit "Items") response = None ->
  lambda_handler event context w
  = (Return (mkEnvelope 500 cors_headers (error_body (lit "'Items'"))),
     after_scan w).
Proof.
  intros Ht Hi. rewrite lambda_handler_cases, Ht, Hi. reflexivity.
Qed.

Lemma missing_items_key_witness :
  table count_only_world None = ScanOk [(lit "Count", PInt 2)]
  /\ lookup (lit "Items") [(lit "Count", PInt 2)] = None
  /\ lambda_handler PNone PNone count_only_world
     = (Return (mkEnvelope 500 cors_headers (error_body (lit "'Items'"))),
        after_scan count_only_world).
Proof.
  split; [reflexivity|]. split; [reflexivity|].
  apply (missing_items_key PNone PNone count_only_world [(lit "Count", PInt 2)]);
    reflexivity.
Defined.

(** X2: the handler answers 200 exactly when the scan succeeds, the
    response has [Items], and no [Decimal], [Binary] or [set] occurs
    anywhere inside the items. *)
Theorem success_iff_serializable event context w env w' :
  lambda_handler event context w = (Return env, w') ->
  (statusCode env = 200%Z
   <-> exists response items,
         table w None = ScanOk response
         /\ lookup (lit "Items") response = Some items
         /\ first_unserializable items = None).
Proof.
  intros H. split.
  - intros Hs.
    destruct (success_inversion _ _ _ _ _ H Hs)
      as (response & items & Ht & Hi & Hd).
    exists response, items. repeat split; auto.
    apply EncodeFacts.dumps_returns_iff. eauto.
  - intros (response & items & Ht & Hi & Hn).
    apply EncodeFacts.dumps_returns_iff in Hn as (out & Hd).
    rewrite lambda_handler_cases, Ht, Hi, Hd in H. now injection H as <- _.
Qed.

Lemma success_iff_serializable_witness :
  exists env w',
    lambda_handler PNone PNone decimal_world = (Return env, w')
    /\ (statusCode env = 200%Z
        <-> exists response items,
              table decimal_world None = ScanOk response
              /\ lookup (lit "Items") response = Some items
              /\ first_unserializable items = None).
Proof.
  eexists _, _. split; [vm_compute; reflexivity|].
  apply (success_iff_serializable PNone PNone decimal_world _
           (after_scan decimal_world)).
  reflexivity.
Defined.

(** X3: when the items hold an object [json.dumps] cannot encode, the
    handler answers 500 and the message names the class of the first such
    object in traversal order; nothing of the items is returned. *)
Theorem unserializable_item_message event context w response items cls :
  table w None = ScanOk response ->
  lookup (lit "Items") response = Some items ->
  first_unserializable items = Some cls ->
  lambda_handler event context w
  = (Return
       (mkEnvelope 500 cors_headers
          (error_body
             (lit "Object of type " ++ lit cls
              ++ lit " is not JSON serializable"))),
     after_scan w).
Proof.
  intros Ht Hi Hc. rewrite lambda_handler_cases, Ht, Hi.
  rewrite (EncodeFacts.dumps_raises _ _ Hc). reflexivity.
Qed.

Lemma unserializable_item_message_witness :
  exists response items,
    table decimal_world None = ScanOk response
    /\ lookup (lit "Items") response = Some items
    /\ first_unserializable items = Some "Decimal"%string
    /\ lambda_handler PNone PNone decimal_world
       = (Return
            (mkEnvelope 500 cors_headers
               (error_body
                  (lit "Object of type " ++ lit "Decimal"
                   ++ lit " is not JSON serializable"))),
          after_scan decimal_world).
Proof.
  eexists _, _. split; [vm_compute; reflexivity|].
  split; [reflexivity|]. split; [reflexivity|].
  apply (unserializable_item_message PNone PNone decimal_world
           (scan_response
              [PDict [(lit "id", PStr (lit "c"));
                      (lit "hits", PDecimal (lit "42"))]] 25 0)
           (PList [PDict [(lit "id", PStr (lit "c"));
                          (lit "hits", PDecimal (lit "42"))]])
           "Decimal"%string);
    reflexivity.
Defined.

(** X4: a 200 body decodes to the scanned page itself: parsing it gives
    the array of the items of the first page, one element per item, in
    the order the scan returned them. *)
Theorem body_decodes_to_items event context w env w' response page :
  lambda_handler event context w = (Return env, w') ->
  statusCode env = 200%Z ->
  table w None = ScanOk response ->
  lookup (lit "Items") response = Some (PList page) ->
  exists elements,
    JsonText.loads (body env) = Some (JsonText.JArr elements)
    /\ elements = map JsonText.to_json page
    /\ List.length elements = List.length page.
Proof.
  intros H Hs Ht Hi.
  destruct (success_inversion _ _ _ _ _ H Hs) as (r & items & Ht' & Hi' & Hd).
  rewrite Ht in Ht'. injection Ht' as <-. rewrite Hi in Hi'. injection Hi' as <-.
  exists (map JsonText.to_json page). split.
  - apply (JsonFacts.loads_dumps _ _ Hd).
  - split; [reflexivity | apply length_map].
Qed.

Lemma body_decodes_to_items_witness :
  exists env w' response page,
    lambda_handler PNone PNone two_page_world = (Return env, w')
    /\ statusCode env = 200%Z
    /\ table two_page_world None = ScanOk response
    /\ lookup (lit "Items") response = Some (PList page)
    /\ exists elements,
         JsonText.loads (body env) = Some (JsonText.JArr elements)
         /\ elements = map JsonText.to_json page
         /\ List.length elements = List.length page.
Proof.
  eexists _, _, _, _. split; [vm_compute; reflexivity|].
  split; [reflexivity|]. split; [vm_compute; reflexivity|].
  split; [reflexivity|].
  apply (body_decodes_to_items PNone PNone two_page_world _
           (after_scan two_page_world)
           (scan_response [row_a; row_b] 1 0) [row_a]);
    reflexivity.
Defined.

(** X5: whatever the table holds and whatever the failure says, the body
    is written with printable ASCII characters only: everything outside
    the range from the space to the tilde is escaped. *)
Theorem body_is_printable_ascii event context w env w' :
  lambda_handler event context w = (Return env, w') ->
  Forall printable (body env).
Proof.
  handler_cases w; intros [= <- <-]; cbn [body];
    try apply EncodeFacts.error_body_printable.
  now apply (EncodeFacts.encode_printable items).
Qed.

Lemma body_is_printable_ascii_witness :
  exists env w',
    lambda_handler PNone PNone one_page_world = (Return env, w')
    /\ Forall printable (body env).
Proof.
  eexists _, _. split; [vm_compute; reflexivity|].
  apply (body_is_printable_ascii PNone PNone one_page_world _
           (after_scan one_page_world)).
  reflexivity.
Defined.

(** X6: of a scan response the handler reads [Items] and nothing else:
    two tables whose first pages agree on [Items] get the same envelope,
    whatever their counts, continuation tokens or other keys. *)
Theorem only_items_is_read event1 context1 event2 context2 w1 w2 r1 r2 :
  table w1 None = ScanOk r1 ->
  table w2 None = ScanOk r2 ->
  lookup (lit "Items") r1 = lookup (lit "Items") r2 ->
  fst (lambda_handler event1 context1 w1)
  = fst (lambda_handler event2 context2 w2).
Proof.
  intros H1 H2 Hi. rewrite !lambda_handler_cases, H1, H2, Hi.
  destruct (lookup (lit "Items") r2) as [items|]; [|reflexivity].
  destruct (Json.dumps items); reflexivity.
Qed.

Lemma only_items_is_read_witness :
  exists r1 r2,
    table two_page_world None = ScanOk r1
    /\ table items_only_world None = ScanOk r2
    /\ lookup (lit "Items") r1 = lookup (lit "Items") r2
    /\ r1 <> r2
    /\ fst (lambda_handler PNone PNone two_page_world)
       = fst (lambda_handler PNone PNone items_only_world).
Proof.
  eexists _, _. split; [vm_compute; reflexivity|].
  split; [reflexivity|]. split; [reflexivity|]. split; [discriminate|].
  apply (only_items_is_read PNone PNone PNone PNone
           two_page_world items_only_world
           (scan_response [row_a; row_b] 1 0) [(lit "Items", PList [row_a])]);
    reflexivity.
Defined.

(** X7: the message of a failed scan reaches the client intact: when its
    characters lie in the basic plane and none is a surrogate half,
    parsing the 500 body gives an object whose [error] member is the
    message, character for character. *)
Theorem bmp_error_message_recovered event context w e :
  table w None = ScanFail e ->
  Forall bmp (exc_str e) ->
  exists env w',
    lambda_handler event context w = (Return env, w')
    /\ statusCode env = 500%Z
    /\ JsonText.loads (body env)
       = Some (JsonText.JObj [(lit "error", JsonText.JStr (exc_str e))]).
Proof.
  intros Ht Hb. rewrite lambda_handler_cases, Ht.
  eexists _, _. split; [reflexivity|]. split; [reflexivity|].
  cbn [body]. rewrite JsonFacts.loads_error_body.
  now rewrite (EncodeFacts.units_bmp _ Hb).
Qed.

Lemma bmp_error_message_recovered_witness :
  table failing_world None = ScanFail throttled
  /\ Forall bmp (exc_str throttled)
  /\ exists env w',
       lambda_handler PNone PNone failing_world = (Return env, w')
       /\ statusCode env = 500%Z
       /\ JsonText.loads (body env)
          = Some (JsonText.JObj
                    [(lit "error", JsonText.JStr (exc_str throttled))]).
Proof.
  assert (Hb : Forall bmp (exc_str throttled)).
  { repeat (constructor; [unfold bmp; simpl; lia|]). constructor. }
  split; [reflexivity|]. split; [exact Hb|].
  apply (bmp_error_message_recovered PNone PNone failing_world throttled);
    [reflexivity | exact Hb].
Defined.

(** X8: a failure message of printable ASCII characters without quote or
    backslash appears in the 500 body verbatim, between the quotes of the
    [error] member. *)
Theorem plain_message_verbatim event context w e :
  table w None = ScanFail e ->
  Forall plain (exc_str e) ->
  exists env w',
    lambda_handler event context w = (Return env, w')
    /\ statusCode env = 500%Z
    /\ body env
       = ch_lbrace :: ch_quote :: lit "error" ++ ch_quote :: lit ": "
           ++ ch_quote :: exc_str e ++ [ch_quote; ch_rbrace].
Proof.
  intros Ht Hp. rewrite lambda_handler_cases, Ht.
  eexists _, _. split; [reflexivity|]. split; [reflexivity|].
  cbn [body]. unfold error_body.
  rewrite (EncodeFacts.basestring_plain _ Hp).
  change (Json.encode_basestring_ascii (lit "error"))
    with (ch_quote :: lit "error" ++ [ch_quote]).
  cbn [lit List.app]. rewrite <- app_assoc. reflexivity.
Qed.

Lemma plain_message_verbatim_witness :
  table failing_world None = ScanFail throttled
  /\ Forall plain (exc_str throttled)
  /\ exists env w',
       lambda_handler PNone PNone failing_world = (Return env, w')
       /\ statusCode env = 500%Z
       /\ body env
          = ch_lbrace :: ch_quote :: lit "error" ++ ch_quote :: lit ": "
              ++ ch_quote :: exc_str throttled ++ [ch_quote; ch_rbrace].
Proof.
  assert (Hp : Forall plain (exc_str throttled)).
  { repeat (constructor;
            [unfold plain, ch_quote, ch_backslash; simpl; lia|]).
    constructor. }
  split; [reflexivity|]. split; [exact Hp|].
  apply (plain_message_verbatim PNone PNone failing_world throttled);
    [reflexivity | exact Hp].
Defined.
